(** * go-web: page analysis and link health check (main.go)

    A shallow embedding of [main.go]: the pure helpers ([Filter],
    [Contains], [getURLs], [getHeadings], [versionReader], the two
    closures of [main]) as functions, and the goroutine/channel protocol
    of [main] and [pingLink] as an executable step function driven by a
    schedule. *)

From Stdlib Require Import ZArith Ascii String List Lia DecimalString.
From stdpp Require Import gmap strings list fin_maps.

Set Warnings "-register-all".

Local Open Scope string_scope.
Local Open Scope Z_scope.
Local Open Scope list_scope.

(** ** The parts of Go's [strings] package that [main.go] calls.

    A Go string is a sequence of bytes; so is a [string] here. *)
Module strings.

(** [s[:n]] for [n <= len(s)]. *)
Definition slice_to (s : string) (n : nat) : string := String.substring 0 n s.

(** [func HasPrefix(s, prefix string) bool {
       return len(s) >= len(prefix) && s[:len(prefix)] == prefix }] *)
Definition HasPrefix (s prefix : string) : bool :=
  (String.length prefix <=? String.length s)%nat
  && String.eqb (slice_to s (String.length prefix)) prefix.

(** [Index] returns the index of the first instance of [substr] in [s],
    or -1 if [substr] is not present in [s]. *)
Fixpoint Index (s substr : string) : Z :=
  if HasPrefix s substr then 0
  else match s with
       | EmptyString => -1
       | String _ s' =>
           let i := Index s' substr in
           if i <? 0 then -1 else i + 1
       end.

(** [func Contains(s, substr string) bool { return Index(s, substr) >= 0 }] *)
Definition Contains (s substr : string) : bool := 0 <=? Index s substr.

(** [utf8.RuneSelf]: bytes below it are single-byte runes. *)
Definition RuneSelf : N := 128.

Definition isASCII (s : string) : bool :=
  forallb (fun c => (N_of_ascii c <? RuneSelf)%N) (list_ascii_of_string s).

(** ['a' <= c && c <= 'z' ? c - ('a' - 'A') : c] *)
Definition upper_byte (c : ascii) : ascii :=
  let n := N_of_ascii c in
  if ((97 <=? n) && (n <=? 122))%N then ascii_of_N (n - 32) else c.

Fixpoint upper_bytes (s : string) : string :=
  match s with
  | EmptyString => EmptyString
  | String c s' => String (upper_byte c) (upper_bytes s')
  end.

(** [ToUpper]: the byte-wise path Go takes for ASCII-only strings; any
    other string goes through [Map(unicode.ToUpper, s)], which is taken
    as the parameter [MapUnicodeToUpper]. *)
Definition ToUpper (MapUnicodeToUpper : string -> string) (s : string) : string :=
  if isASCII s then upper_bytes s else MapUnicodeToUpper s.

End strings.

(** ** [Filter] and the two predicates [main] builds. *)

(** [for _, s := range ss { if f(s) { filtered = append(filtered, s) } }] *)
Definition Filter (ss : list string) (f : string -> bool) : list string :=
  fold_left (fun filtered s => if f s then filtered ++ [s] else filtered) ss [].

(** The closure [findinternals] of [main]; it captures [baseURL]. *)
Definition findinternals (baseURL : string) (s : string) : bool :=
  strings.HasPrefix s baseURL || strings.HasPrefix s "/" || strings.HasPrefix s "#".

(** [internals := Filter(fresult.urls, findinternals)] *)
Definition internals (baseURL : string) (urls : list string) : list string :=
  Filter urls (findinternals baseURL).

(** The number of external links [main] prints:
    [len(fresult.urls)-len(internals)]. *)
Definition externalCount (baseURL : string) (urls : list string) : Z :=
  Z.of_nat (length urls) - Z.of_nat (length (internals baseURL urls)).

(** [main] never builds the external links, it only counts them; this is
    the complement of [internals] that the count stands for. *)
Definition externals (baseURL : string) (urls : list string) : list string :=
  Filter urls (fun s => negb (findinternals baseURL s)).

Section Login.

(** [Map(unicode.ToUpper, s)] of Go's [strings] package, used by
    [strings.ToUpper] on strings that are not pure ASCII. *)
Variable MapUnicodeToUpper : string -> string.

(** The closure [containsLoginByURL] of [main]. *)
Definition containsLoginByURL (il : string) : bool :=
  let s := strings.ToUpper MapUnicodeToUpper il in
  strings.Contains s "LOGIN" || strings.Contains s "SIGNIN".

(** [login := Filter(internals, containsLoginByURL)] *)
Definition login (baseURL : string) (urls : list string) : list string :=
  Filter (internals baseURL urls) containsLoginByURL.

End Login.

(** ** The parsed document: [golang.org/x/net/html] nodes as goquery
    queries them. *)
Module html.

Inductive NodeType :=
| ErrorNode | TextNode | DocumentNode | ElementNode | CommentNode | DoctypeNode.

(** [type Attribute struct { Namespace, Key, Val string }] *)
Record Attribute := { Key : string; Val : string }.

(** [type Node struct { ...; Type NodeType; Data string; Attr []Attribute }],
    the sibling/child pointers as the list of children. *)
Inductive Node :=
| mkNode (Type_ : NodeType) (Data : string) (Attr : list Attribute)
         (Children : list Node).

Definition Type_ (n : Node) : NodeType := let 'mkNode t _ _ _ := n in t.
Definition Data (n : Node) : string := let 'mkNode _ d _ _ := n in d.
Definition Attr (n : Node) : list Attribute := let 'mkNode _ _ a _ := n in a.
Definition Children (n : Node) : list Node := let 'mkNode _ _ _ c := n in c.

Definition isElement (t : NodeType) : bool :=
  match t with ElementNode => true | _ => false end.

End html.

Module goquery.

(** A [*goquery.Document]: its root node. *)
Definition Document := html.Node.

(** A tag-name selector matches the element nodes of that name. *)
Definition matches (tag : string) (n : html.Node) : bool :=
  html.isElement (html.Type_ n) && String.eqb (html.Data n) tag.

(** [m.MatchAll(n)]: [n] itself if it matches, then the matches below
    each of its children, in document order. *)
Fixpoint MatchAll (tag : string) (n : html.Node) : list html.Node :=
  match n with
  | html.mkNode _ _ _ kids =>
      (if matches tag n then [n] else []) ++ flat_map (MatchAll tag) kids
  end.

(** [doc.Find(tag)]: [MatchAll] over the element children of the root;
    each result is a one-node selection for [Each]. *)
Definition Find (doc : Document) (tag : string) : list html.Node :=
  flat_map (fun c => if html.isElement (html.Type_ c) then MatchAll tag c else [])
    (html.Children doc).

(** [s.Attr(name)] on a one-node selection: the value of the first
    attribute of that key and [true], or [("", false)]. *)
Fixpoint getAttributeValue (name : string) (attrs : list html.Attribute)
  : string * bool :=
  match attrs with
  | [] => ("", false)
  | a :: rest =>
      if String.eqb (html.Key a) name then (html.Val a, true)
      else getAttributeValue name rest
  end.

Definition Attr (s : html.Node) (name : string) : string * bool :=
  getAttributeValue name (html.Attr s).

(** [s.Contents()]: the children of each node of the selection, text and
    comment nodes included. *)
Definition Contents (s : list html.Node) : list html.Node :=
  flat_map html.Children s.

(** [getNodeText]: the data of a text node, else the texts of the
    children, concatenated. *)
Fixpoint getNodeText (n : html.Node) : string :=
  match n with
  | html.mkNode t d _ kids =>
      match t with
      | html.TextNode => d
      | _ => String.concat "" (map getNodeText kids)
      end
  end.

(** [s.Text()]: the combined text of the nodes of the selection. *)
Definition Text (s : list html.Node) : string :=
  String.concat "" (map getNodeText s).

End goquery.

(** [strconv.Itoa]. *)
Module strconv.
Definition Itoa (i : Z) : string := NilZero.string_of_int (Z.to_int i).
End strconv.

(** ** The structural extractor. *)

(** The body of the callback in [getHeadings]: [hs["h"+str] = +1]. *)
Definition setHeading (str : string) (hs : gmap string Z) (s : html.Node)
  : gmap string Z :=
  <[ ("h" ++ str)%string := 1 ]> hs.

(** [getHeadings]: the map literal, then [for i := 1; i <= 6; i++] with
    [doc.Find("h" + str).Each(...)] inside. *)
Definition getHeadings (doc : goquery.Document) : gmap string Z :=
  let hs : gmap string Z :=
    <["h6" := 0]> (<["h5" := 0]> (<["h4" := 0]> (<["h3" := 0]>
      (<["h2" := 0]> (<["h1" := 0]> ∅))))) in
  fold_left
    (fun hs i =>
       let str := strconv.Itoa i in
       fold_left (setHeading str) (goquery.Find doc ("h" ++ str)%string) hs)
    [1; 2; 3; 4; 5; 6] hs.

(** [Contains]: [for _, v := range urls { if v == url { return true } };
    return false]. *)
Fixpoint Contains (urls : list string) (url : string) : bool :=
  match urls with
  | [] => false
  | v :: rest => if String.eqb v url then true else Contains rest url
  end.

(** The callback of [getURLs], acting on the captured [foundUrls]. *)
Definition addURL (foundUrls : list string) (s : html.Node) : list string :=
  let '(u, _) := goquery.Attr s "href" in
  if negb (Contains foundUrls u) then foundUrls ++ [u] else foundUrls.

(** [getURLs]: [foundUrls := []string{}; doc.Find("a").Each(...)]. *)
Definition getURLs (doc : goquery.Document) : list string :=
  fold_left addURL (goquery.Find doc "a") [].

(** The hrefs of the anchors in document order, before deduplication. *)
Definition hrefs (doc : goquery.Document) : list string :=
  map (fun s => fst (goquery.Attr s "href")) (goquery.Find doc "a").

(** The spec's reading of the links: each value once, at the place of its
    first occurrence. *)
Fixpoint first_occurrences (l : list string) : list string :=
  match l with
  | [] => []
  | x :: rest => x :: List.filter (fun y => negb (String.eqb x y)) (first_occurrences rest)
  end.

(** ** The version detector. *)

(** A raw string literal [`"sig"`] of the source: [sig] between two
    double-quote bytes. *)
Definition quoted (sig : string) : string :=
  (String "034"%char sig ++ String "034"%char EmptyString)%string.

(** The entries of the map literal [doctypes], as written. *)
Definition doctypes : list (string * string) :=
  [ ("HTML 5", "<!DOCTYPE html>");
    ("HTML 4.01 Strict", quoted "-//W3C//DTD HTML 4.01//EN");
    ("HTML 4.01 Transitional", quoted "-//W3C//DTD HTML 4.01 Transitional//EN");
    ("HTML 4.01 Frameset", quoted "-//W3C//DTD HTML 4.01 Frameset//EN");
    ("XHTML 1.0 Strict", quoted "-//W3C//DTD XHTML 1.0 Strict//EN");
    ("XHTML 1.0 Transitional", quoted "-//W3C//DTD XHTML 1.0 Transitional//EN");
    ("XHTML 1.0 Frameset", quoted "-//W3C//DTD XHTML 1.0 Frameset//EN");
    ("XHTML 1.1", quoted "-//W3C//DTD XHTML 1.1//EN") ].

(** The loop of [versionReader], for one order in which [range doctypes]
    visits the entries: [if strings.Contains(html, m) { version = d }]. *)
Definition scanDoctypes (order : list (string * string)) (html : string) : string :=
  fold_left
    (fun version '(d, m) => if strings.Contains html m then d else version)
    order "".

(** Go's [error] values, as far as [versionReader] passes them on. *)
Inductive error := errorString (msg : string).

(** [versionReader], given what [doc.Html()] returned and the order in
    which this run's [range] visits [doctypes]. *)
Definition versionReader (order : list (string * string))
    (docHtml : string * option error) : string * option error :=
  let '(html, err) := docHtml in
  match err with
  | Some e => ("", Some e)
  | None => (scanDoctypes order html, None)
  end.

(** Go leaves the iteration order of a map unspecified: a run may visit
    the entries in any order, each exactly once. *)
Definition iterationOrder (order : list (string * string)) : Prop :=
  order ≡ₚ doctypes.

(** [v] is a version some run of [versionReader] returns on [html]. *)
Definition versionReader_returns (html : string) (v : string) : Prop :=
  exists order, iterationOrder order /\ versionReader order (html, None) = (v, None).

(** ** The health checker: the channel loop of [main] and the [pingLink]
    goroutines.

    [c] is an unbuffered channel, so a send is a rendezvous with the
    receive in [main]'s [range]; a send on a closed channel and a second
    [close] are runtime panics, which end the process. *)

(** Where one [pingLink(link, c)] goroutine stands. *)
Inductive goroutine :=
| Getting (link : string)   (* inside [http.Get(link)] *)
| Sending (link : string)   (* [err != nil]: at [c <- link] *)
| Sleeping                  (* [err == nil]: in [time.Sleep], before [close(c)] *)
| Returned.                 (* sent its link, or closed [c] *)

(** Where the process stands. *)
Inductive mainState :=
| Ranging    (* [main] is in [for l := range c] *)
| Done       (* the loop was left and the count printed: [main] returned *)
| Panicked.  (* a goroutine panicked: the process was aborted *)

Record state := mkState {
  gs : list goroutine;   (* one per element of [fresult.urls], in order *)
  closed : bool;         (* whether [c] has been closed *)
  ia : list string;      (* the slice [ia] of [main] *)
  mainAt : mainState
}.

(** After [for _, u := range fresult.urls { go pingLink(u, c) }]. *)
Definition init (urls : list string) : state :=
  mkState (map Getting urls) false [] Ranging.

(** What the scheduler and the network let happen next. *)
Inductive event :=
| EvGet (i : nat)     (* [http.Get] of goroutine [i] returns *)
| EvSend (i : nat)    (* the send of goroutine [i] goes ahead *)
| EvClose (i : nat)   (* goroutine [i] wakes up and calls [close(c)] *)
| EvRangeEnd.         (* the [range] in [main] finds [c] closed *)

Section HealthChecker.

(** The probe transport: the [err] that [http.Get(link)] returns. *)
Variable httpGet : string -> option error.

(** One step; [None] when the event cannot happen in this state. *)
Definition step (e : event) (s : state) : option state :=
  match mainAt s with
  | Ranging =>
      match e with
      | EvGet i =>
          match gs s !! i with
          | Some (Getting link) =>
              let g := match httpGet link with
                       | Some _ => Sending link
                       | None => Sleeping
                       end in
              Some (mkState (<[i := g]> (gs s)) (closed s) (ia s) Ranging)
          | _ => None
          end
      | EvSend i =>
          match gs s !! i with
          | Some (Sending link) =>
              if closed s
              then Some (mkState (gs s) (closed s) (ia s) Panicked)
              else Some (mkState (<[i := Returned]> (gs s)) false
                                 (ia s ++ [link]) Ranging)
          | _ => None
          end
      | EvClose i =>
          match gs s !! i with
          | Some Sleeping =>
              if closed s
              then Some (mkState (gs s) (closed s) (ia s) Panicked)
              else Some (mkState (<[i := Returned]> (gs s)) true (ia s) Ranging)
          | _ => None
          end
      | EvRangeEnd =>
          if closed s then Some (mkState (gs s) true (ia s) Done) else None
      end
  | Done | Panicked => None
  end.

(** The run a schedule describes, from state [s]. *)
Fixpoint run (sched : list event) (s : state) : option state :=
  match sched with
  | [] => Some s
  | e :: rest =>
      match step e s with
      | Some s' => run rest s'
      | None => None
      end
  end.

(** The links whose probe failed. *)
Definition failing (urls : list string) : list string :=
  List.filter (fun u => match httpGet u with Some _ => true | None => false end) urls.

End HealthChecker.

(** The number of probes that have reported (by a send or by a close). *)
Definition completed (s : state) : nat :=
  length (List.filter (fun g => match g with Returned => true | _ => false end) (gs s)).

(** What holds of every state of a run over [urls]: [ia] holds failed
    links only, and so does every pending send. *)
Definition sound (httpGet : string -> option error) (urls : list string)
    (s : state) : Prop :=
  (forall l, l ∈ ia s -> l ∈ failing httpGet urls)
  /\ (forall i l, gs s !! i = Some (Getting l) -> l ∈ urls)
  /\ (forall i l, gs s !! i = Some (Sending l) -> l ∈ failing httpGet urls).

(** What holds of every state of a run in which no probe succeeds: the
    channel is open, [main] is in its loop, and no goroutine is on the
    way to [close(c)]. *)
Definition allDown (urls : list string) (s : state) : Prop :=
  closed s = false
  /\ mainAt s = Ranging
  /\ (forall i l, gs s !! i = Some (Getting l) -> l ∈ urls)
  /\ (forall i, gs s !! i <> Some Sleeping).

(** ** Sample inputs. *)

(** [<a></a>]: an anchor without attributes. *)
Definition bareAnchor : html.Node := html.mkNode html.ElementNode "a" [] [].

(** [<a href></a>]: an anchor whose [href] is the empty string. *)
Definition emptyHrefAnchor : html.Node :=
  html.mkNode html.ElementNode "a" [ {| html.Key := "href"; html.Val := "" |} ] [].

(** A document whose body is the given list of nodes. *)
Definition docOf (body : list html.Node) : goquery.Document :=
  html.mkNode html.DocumentNode "" []
    [ html.mkNode html.ElementNode "html" []
        [ html.mkNode html.ElementNode "head" [] [];
          html.mkNode html.ElementNode "body" [] body ] ].

(** An [h3] heading with the given text. *)
Definition h3 (text : string) : html.Node :=
  html.mkNode html.ElementNode "h3" [] [ html.mkNode html.TextNode text [] [] ].

(** A page with two [h3] headings. *)
Definition twoH3 : goquery.Document := docOf [ h3 "first"; h3 "second" ].

(** The six heading tags. *)
Definition headingTags : list string := ["h1"; "h2"; "h3"; "h4"; "h5"; "h6"].

(** An HTML 5 page that quotes the XHTML 1.1 public identifier in a
    comment, as [doc.Html()] serializes it. *)
Definition html5QuotingXhtml11 : string :=
  ("<!DOCTYPE html><html><head></head><body><!-- was "
   ++ quoted "-//W3C//DTD XHTML 1.1//EN" ++ " --></body></html>")%string.

(** Two links, and a network on which only the first answers. *)
Definition linkA : string := "http://a.test/".
Definition linkB : string := "http://b.test/".
Definition linkC : string := "http://c.test/".
Definition onlyAUp (link : string) : option error :=
  if String.eqb link linkA then None
  else Some (errorString "dial tcp: i/o timeout").

(** The node has no [href] attribute. *)
Definition lacks_href (n : html.Node) : Prop :=
  Forall (fun a => html.Key a <> "href") (html.Attr n).

(** ** Vocabulary of the statements. *)

(** [s] starts with [p]. *)
Definition starts_with (s p : string) : Prop := exists t, s = (p ++ t)%string.

(** [sub] occurs in [s]. *)
Definition occurs_in (sub s : string) : Prop :=
  exists pre post, s = (pre ++ sub ++ post)%string.

(** ** [fetch] and what [main] prints about the links. *)

(** [type fetchResult struct { version, title string;
    headings map[string]int; urls []string }] *)
Module fetchResult.
Record t := mk {
  version : string;
  title : string;
  headings : gmap string Z;
  urls : list string
}.
End fetchResult.

(** [fetch], given what [doc.Html()] returns and the order in which
    [versionReader] visits its table; beside the result, the line it
    prints when [versionReader] fails ([fmt.Println] separates its
    operands by a space and ends the line). *)
Definition fetch (order : list (string * string))
    (docHtml : string * option error) (doc : goquery.Document)
  : list string * fetchResult.t :=
  let '(v, err) := versionReader order docHtml in
  let printed :=
    match err with
    | Some (errorString msg) =>
        [ ("Error loading version " ++ msg ++ String "010"%char "")%string ]
    | None => []
    end in
  (printed,
   fetchResult.mk v
     (goquery.Text (goquery.Contents (goquery.Find doc "title")))
     (getHeadings doc)
     (getURLs doc)).


(** ** More about the states of the health checker. *)

(** The link a goroutine may still send. *)
Definition pendingLink (g : goroutine) : list string :=
  match g with
  | Getting link | Sending link => [link]
  | Sleeping | Returned => []
  end.

(** The links that may still be sent on [c]. *)
Definition pending (s : state) : list string := flat_map pendingLink (gs s).

(** Goroutine [i] of a run over [urls] probes [urls[i]]; one that is on
    its way to [close(c)] got an answer; once [c] is closed, one that
    got an answer has returned; and the process leaves the loop of
    [main] only with [c] closed. *)
Definition tracked (httpGet : string -> option error) (urls : list string)
    (s : state) : Prop :=
  (forall i l, gs s !! i = Some (Getting l) -> urls !! i = Some l)
  /\ (forall i, gs s !! i = Some Sleeping ->
                exists u, urls !! i = Some u /\ httpGet u = None)
  /\ (closed s = true ->
      exists i u, urls !! i = Some u /\ httpGet u = None
                  /\ gs s !! i = Some Returned)
  /\ (mainAt s <> Ranging -> closed s = true).

(** * Properties *)

(** ** The [strings] functions meet their documentation. *)

Lemma HasPrefix_empty (s : string) : strings.HasPrefix s "" = true.
Proof. destruct s; reflexivity. Qed.

Lemma HasPrefix_cons (b a : ascii) (s p : string) :
  strings.HasPrefix (String b s) (String a p)
  = Ascii.eqb b a && strings.HasPrefix s p.
Proof.
  unfold strings.HasPrefix, strings.slice_to. cbn [String.length substring String.eqb].
  change (S (String.length p) <=? S (String.length s))%nat
    with (String.length p <=? String.length s)%nat.
  destruct (Ascii.eqb b a), (String.length p <=? String.length s)%nat; reflexivity.
Qed.

Lemma HasPrefix_spec (s p : string) :
  strings.HasPrefix s p = true <-> exists t, s = (p ++ t)%string.
Proof.
  revert s. induction p as [|a p IH]; intros s.
  - rewrite HasPrefix_empty. split; [intros _; exists s; reflexivity | reflexivity].
  - destruct s as [|b s].
    + split; [discriminate | intros [t Ht]; discriminate].
    + rewrite HasPrefix_cons, andb_true_iff, Ascii.eqb_eq, IH. cbn [String.append].
      split.
      * intros [-> [t ->]]. exists t. reflexivity.
      * intros [t Ht]. injection Ht as -> ->. split; [reflexivity | exists t; reflexivity].
Qed.

Lemma Index_lower (s sub : string) : -1 <= strings.Index s sub.
Proof.
  induction s as [|c s IH]; cbn [strings.Index].
  - destruct (strings.HasPrefix "" sub); lia.
  - destruct (strings.HasPrefix (String c s) sub); [lia|].
    destruct (Z.ltb_spec (strings.Index s sub) 0); lia.
Qed.

Lemma Contains_cons (c : ascii) (s sub : string) :
  strings.Contains (String c s) sub
  = strings.HasPrefix (String c s) sub || strings.Contains s sub.
Proof.
  unfold strings.Contains. cbn [strings.Index].
  destruct (strings.HasPrefix (String c s) sub); [reflexivity|]. cbn [orb].
  pose proof (Index_lower s sub).
  destruct (Z.ltb_spec (strings.Index s sub) 0);
    destruct (Z.leb_spec 0 (strings.Index s sub)); lia.
Qed.

Lemma Contains_empty (sub : string) :
  strings.Contains "" sub = strings.HasPrefix "" sub.
Proof.
  unfold strings.Contains. cbn [strings.Index].
  destruct (strings.HasPrefix "" sub); reflexivity.
Qed.

(** [Contains] reports whether [substr] is within [s]. *)
Lemma Contains_spec (s sub : string) :
  strings.Contains s sub = true
  <-> exists pre post, s = (pre ++ sub ++ post)%string.
Proof.
  split.
  - induction s as [|c s IH].
    + rewrite Contains_empty, HasPrefix_spec. intros [t Ht]. exists "", t. exact Ht.
    + rewrite Contains_cons, orb_true_iff, HasPrefix_spec. intros [[t Ht] | H].
      * exists "", t. exact Ht.
      * destruct (IH H) as (pre & post & ->). exists (String c pre), post. reflexivity.
  - intros (pre & post & ->). induction pre as [|c pre IH].
    + change (strings.Contains (sub ++ post) sub = true).
      assert (Hp : strings.HasPrefix (sub ++ post) sub = true)
        by (apply HasPrefix_spec; exists post; reflexivity).
      destruct (sub ++ post)%string as [|c r].
      * rewrite Contains_empty. exact Hp.
      * rewrite Contains_cons, Hp. reflexivity.
    + change (strings.Contains (String c (pre ++ sub ++ post)) sub = true).
      rewrite Contains_cons, IH. apply orb_true_r.
Qed.

(** ** [Filter] *)

Lemma Filter_loop (f : string -> bool) (ss acc : list string) :
  fold_left (fun filtered s => if f s then filtered ++ [s] else filtered) ss acc
  = acc ++ List.filter f ss.
Proof.
  revert acc. induction ss as [|s ss IH]; intros acc; cbn [fold_left List.filter].
  - symmetry. apply app_nil_r.
  - rewrite IH. destruct (f s); [rewrite <- app_assoc|]; reflexivity.
Qed.

Lemma Filter_filter (ss : list string) (f : string -> bool) :
  Filter ss f = List.filter f ss.
Proof. unfold Filter. apply Filter_loop. Qed.

Lemma filter_sublist (f : string -> bool) (ss : list string) :
  List.filter f ss `sublist_of` ss.
Proof.
  induction ss as [|s ss IH]; cbn [List.filter].
  - constructor.
  - destruct (f s); [apply sublist_skip | apply sublist_cons]; exact IH.
Qed.

Lemma elem_of_Filter (ss : list string) (f : string -> bool) (s : string) :
  s ∈ Filter ss f <-> s ∈ ss /\ f s = true.
Proof. rewrite Filter_filter, !list_elem_of_In. apply filter_In. Qed.

Lemma count_occ_filter (f : string -> bool) (ss : list string) (s : string) :
  count_occ string_dec (List.filter f ss) s
  = if f s then count_occ string_dec ss s else 0%nat.
Proof.
  induction ss as [|x ss IH]; cbn [List.filter count_occ].
  - destruct (f s); reflexivity.
  - destruct (f x) eqn:Hx; cbn [count_occ]; destruct (string_dec x s) as [->|Hne].
    + rewrite IH, Hx. reflexivity.
    + exact IH.
    + rewrite IH, Hx. reflexivity.
    + exact IH.
Qed.

Lemma filter_partition (f : string -> bool) (ss : list string) :
  List.filter f ss ++ List.filter (fun s => negb (f s)) ss ≡ₚ ss.
Proof.
  induction ss as [|s ss IH]; cbn [List.filter]; [reflexivity|].
  destruct (f s); cbn [negb app].
  - constructor. exact IH.
  - rewrite <- Permutation_middle. constructor. exact IH.
Qed.

(** C8: [Filter] returns exactly the elements that satisfy the predicate
    (each as often as the input has it), in their original relative
    order, and none that fails it. *)
Theorem Filter_correct (ss : list string) (f : string -> bool) :
  Filter ss f = List.filter f ss
  /\ Filter ss f `sublist_of` ss
  /\ (forall s, s ∈ Filter ss f <-> s ∈ ss /\ f s = true)
  /\ (forall s, count_occ string_dec (Filter ss f) s
                = if f s then count_occ string_dec ss s else 0%nat)
  /\ Forall (fun s => f s = true) (Filter ss f).
Proof.
  split; [apply Filter_filter|].
  split; [rewrite Filter_filter; apply filter_sublist|].
  split; [intros s; apply elem_of_Filter|].
  split; [intros s; rewrite Filter_filter; apply count_occ_filter|].
  apply Forall_forall. intros s Hs. apply elem_of_Filter in Hs. apply Hs.
Qed.

(** ** The link classifier *)

Lemma findinternals_spec (baseURL s : string) :
  findinternals baseURL s = true
  <-> starts_with s baseURL \/ starts_with s "/" \/ starts_with s "#".
Proof.
  unfold findinternals, starts_with.
  rewrite !orb_true_iff, !HasPrefix_spec. tauto.
Qed.

(** C4: the internal links are the links that start with the base URL,
    with "/" or with "#", the external links are the rest, and the two
    together hold every link (as often as the list has it) and share
    none; the external count [main] prints is the size of that rest.
    On the links of the x.test scenario: two internal, one external. *)
Theorem classifier_partition (baseURL : string) (links : list string) :
  (forall l, l ∈ internals baseURL links
             <-> l ∈ links
                 /\ (starts_with l baseURL \/ starts_with l "/" \/ starts_with l "#"))
  /\ (forall l, l ∈ externals baseURL links
                <-> l ∈ links /\ ~ l ∈ internals baseURL links)
  /\ (forall l, l ∈ links
                <-> l ∈ internals baseURL links \/ l ∈ externals baseURL links)
  /\ (forall l, ~ (l ∈ internals baseURL links /\ l ∈ externals baseURL links))
  /\ internals baseURL links ++ externals baseURL links ≡ₚ links
  /\ externalCount baseURL links = Z.of_nat (length (externals baseURL links))
  /\ internals "http://x.test/" ["http://x.test/login"; "/about"; "http://other.test/"]
     = ["http://x.test/login"; "/about"]
  /\ externals "http://x.test/" ["http://x.test/login"; "/about"; "http://other.test/"]
     = ["http://other.test/"].
Proof.
  assert (Hint : forall l, l ∈ internals baseURL links
                           <-> l ∈ links /\ findinternals baseURL l = true)
    by (intros l; apply elem_of_Filter).
  assert (Hext : forall l, l ∈ externals baseURL links
                           <-> l ∈ links /\ findinternals baseURL l = false).
  { intros l. unfold externals. rewrite elem_of_Filter, negb_true_iff. reflexivity. }
  assert (Hperm : internals baseURL links ++ externals baseURL links ≡ₚ links).
  { unfold internals, externals. rewrite !Filter_filter. apply filter_partition. }
  split; [|split; [|split; [|split; [|split; [|split; [|split]]]]]];
    [| | | | | | vm_compute; reflexivity | vm_compute; reflexivity].
  - intros l. rewrite Hint, findinternals_spec. reflexivity.
  - intros l. rewrite Hext, Hint. split.
    + intros [H1 H2]. split; [exact H1|]. intros [_ H3]. congruence.
    + intros [H1 H2]. split; [exact H1|].
      destruct (findinternals baseURL l); [|reflexivity].
      exfalso. apply H2. split; [exact H1 | reflexivity].
  - intros l. rewrite Hint, Hext.
    destruct (findinternals baseURL l); intuition congruence.
  - intros l. rewrite Hint, Hext. intros [[_ H1] [_ H2]]. congruence.
  - exact Hperm.
  - unfold externalCount. apply Permutation_length in Hperm.
    rewrite length_app in Hperm. lia.
Qed.

Lemma filter_all (f : string -> bool) (ss : list string) :
  (forall s, f s = true) -> List.filter f ss = ss.
Proof.
  intros Hf. induction ss as [|s ss IH]; cbn [List.filter]; [reflexivity|].
  rewrite Hf, IH. reflexivity.
Qed.

Lemma filter_none (f : string -> bool) (ss : list string) :
  (forall s, f s = false) -> List.filter f ss = [].
Proof.
  intros Hf. induction ss as [|s ss IH]; cbn [List.filter]; [reflexivity|].
  rewrite Hf. exact IH.
Qed.

(** C10: with the empty string as base URL the classifier marks every
    link internal, and no link is external. *)
Theorem empty_baseURL_all_internal (links : list string) :
  (forall s, findinternals "" s = true)
  /\ internals "" links = links
  /\ externals "" links = []
  /\ externalCount "" links = 0.
Proof.
  assert (H : forall s, findinternals "" s = true).
  { intros s. unfold findinternals. rewrite HasPrefix_empty. reflexivity. }
  assert (Hi : internals "" links = links).
  { unfold internals. rewrite Filter_filter. apply filter_all, H. }
  split; [exact H|]. split; [exact Hi|]. split.
  - unfold externals. rewrite Filter_filter. apply filter_none.
    intros s. rewrite H. reflexivity.
  - unfold externalCount. rewrite Hi. lia.
Qed.

(** C7: the login candidates are the internal links whose uppercased
    value contains LOGIN or SIGNIN, in the order of the internal links;
    on the spec's scenario they are exactly http://x.test/login. *)
Theorem login_candidates (MapUnicodeToUpper : string -> string)
    (baseURL : string) (links : list string) :
  (forall l, l ∈ login MapUnicodeToUpper baseURL links
             <-> l ∈ internals baseURL links
                 /\ (occurs_in "LOGIN" (strings.ToUpper MapUnicodeToUpper l)
                     \/ occurs_in "SIGNIN" (strings.ToUpper MapUnicodeToUpper l)))
  /\ login MapUnicodeToUpper baseURL links
     = List.filter (containsLoginByURL MapUnicodeToUpper) (internals baseURL links)
  /\ login MapUnicodeToUpper baseURL links `sublist_of` internals baseURL links
  /\ login MapUnicodeToUpper "http://x.test/"
       ["http://x.test/login"; "/about"; "http://other.test/"]
     = ["http://x.test/login"].
Proof.
  split; [|split; [|split]].
  - intros l. unfold login. rewrite elem_of_Filter. unfold containsLoginByURL, occurs_in.
    cbv zeta. rewrite orb_true_iff, !Contains_spec. reflexivity.
  - apply Filter_filter.
  - unfold login. rewrite Filter_filter. apply filter_sublist.
  - vm_compute. reflexivity.
Qed.

(** ** [getURLs] *)

Lemma Contains_elem_of (urls : list string) (url : string) :
  Contains urls url = true <-> url ∈ urls.
Proof.
  induction urls as [|v urls IH]; cbn [Contains].
  - split; [discriminate | intros H; inversion H].
  - rewrite elem_of_cons. destruct (String.eqb_spec v url) as [->|Hne].
    + split; [left; reflexivity | reflexivity].
    + rewrite IH. split; [right; assumption | intros [H|H]; [congruence | exact H]].
Qed.

Lemma Contains_app (l1 l2 : list string) (u : string) :
  Contains (l1 ++ l2) u = Contains l1 u || Contains l2 u.
Proof.
  induction l1 as [|v l1 IH]; cbn [Contains app orb]; [reflexivity|].
  destruct (String.eqb v u); [reflexivity | exact IH].
Qed.

Lemma filter_filter_andb (f g : string -> bool) (l : list string) :
  List.filter f (List.filter g l) = List.filter (fun x => g x && f x) l.
Proof.
  induction l as [|x l IH]; cbn [List.filter]; [reflexivity|].
  destruct (g x); cbn [List.filter andb]; [destruct (f x)|]; rewrite IH; reflexivity.
Qed.

(** The loop of [getURLs], started with any [foundUrls]. *)
Lemma getURLs_loop (ns : list html.Node) (acc : list string) :
  fold_left addURL ns acc
  = acc ++ List.filter (fun u => negb (Contains acc u))
             (first_occurrences (map (fun s => fst (goquery.Attr s "href")) ns)).
Proof.
  revert acc. induction ns as [|n ns IH]; intros acc;
    cbn [fold_left map first_occurrences List.filter].
  - symmetry. apply app_nil_r.
  - unfold addURL at 2. destruct (goquery.Attr n "href") as [u ex]. cbn [fst].
    rewrite filter_filter_andb.
    destruct (Contains acc u) eqn:Hc; cbn [negb]; rewrite IH.
    + f_equal. apply filter_ext. intros y.
      destruct (String.eqb_spec u y) as [<-|Hne]; cbn [negb andb].
      * rewrite Hc. reflexivity.
      * reflexivity.
    + rewrite <- app_assoc. cbn [app]. do 2 f_equal.
      apply filter_ext. intros y. rewrite Contains_app. cbn [Contains].
      destruct (String.eqb u y), (Contains acc y); reflexivity.
Qed.

Lemma getURLs_first_occurrences (doc : goquery.Document) :
  getURLs doc = first_occurrences (hrefs doc).
Proof.
  unfold getURLs, hrefs. rewrite getURLs_loop. cbn [app Contains negb].
  apply filter_all. reflexivity.
Qed.

Lemma elem_of_first_occurrences (l : list string) (u : string) :
  u ∈ first_occurrences l <-> u ∈ l.
Proof.
  induction l as [|x l IH]; cbn [first_occurrences]; [reflexivity|].
  rewrite !elem_of_cons, list_elem_of_In, filter_In, <- list_elem_of_In, IH.
  destruct (String.eqb_spec x u) as [->|Hne]; cbn [negb].
  - split; [intros _; left; reflexivity | intros _; left; reflexivity].
  - split; [intros [H|[H _]]; [left|right]; assumption
           | intros [H|H]; [left; assumption | right; split; [assumption|reflexivity]]].
Qed.

Lemma NoDup_first_occurrences (l : list string) : NoDup (first_occurrences l).
Proof.
  induction l as [|x l IH]; cbn [first_occurrences]; [constructor|].
  apply NoDup_cons_2.
  - rewrite list_elem_of_In, filter_In. intros [_ H].
    rewrite String.eqb_refl in H. discriminate.
  - apply NoDup_ListNoDup, List.NoDup_filter, NoDup_ListNoDup, IH.
Qed.

Lemma first_occurrences_sublist (l : list string) : first_occurrences l `sublist_of` l.
Proof.
  induction l as [|x l IH]; cbn [first_occurrences]; [constructor|].
  apply sublist_skip. etransitivity; [apply filter_sublist | exact IH].
Qed.

(** C5: the links are pairwise distinct (as many as their set has
    members); they are the hrefs of the anchors in document order, each
    kept where it first occurs, so every href, the empty one included, is
    among them. *)
Theorem getURLs_distinct (doc : goquery.Document) :
  NoDup (getURLs doc)
  /\ length (getURLs doc) = size (list_to_set (getURLs doc) : gset string)
  /\ getURLs doc = first_occurrences (hrefs doc)
  /\ getURLs doc `sublist_of` hrefs doc
  /\ (forall u, u ∈ getURLs doc <-> u ∈ hrefs doc).
Proof.
  assert (Hnd : NoDup (getURLs doc)).
  { rewrite getURLs_first_occurrences. apply NoDup_first_occurrences. }
  split; [exact Hnd|].
  split; [symmetry; apply size_list_to_set, Hnd|].
  split; [apply getURLs_first_occurrences|].
  split; [rewrite getURLs_first_occurrences; apply first_occurrences_sublist|].
  intros u. rewrite getURLs_first_occurrences. apply elem_of_first_occurrences.
Qed.

Lemma getAttributeValue_missing (name : string) (attrs : list html.Attribute) :
  Forall (fun a => html.Key a <> name) attrs ->
  goquery.getAttributeValue name attrs = ("", false).
Proof.
  induction 1 as [|a attrs Ha _ IH]; cbn [goquery.getAttributeValue]; [reflexivity|].
  destruct (String.eqb_spec (html.Key a) name); [contradiction | exact IH].
Qed.

Lemma count_occ_NoDup_le (l : list string) (u : string) :
  NoDup l -> (count_occ string_dec l u <= 1)%nat.
Proof.
  intros H. revert u.
  apply (proj1 (List.NoDup_count_occ string_dec l)), NoDup_ListNoDup, H.
Qed.

(** C9: an anchor without [href] yields the empty string, and the
    callback of [getURLs] treats it like an anchor with an empty [href];
    the links then hold the empty string exactly once, and no document
    yields it more than once. *)
Theorem missing_href_is_empty_link (doc : goquery.Document) (n : html.Node) :
  n ∈ goquery.Find doc "a" ->
  lacks_href n ->
  goquery.Attr n "href" = ("", false)
  /\ goquery.Attr emptyHrefAnchor "href" = ("", true)
  /\ (forall foundUrls, addURL foundUrls n = addURL foundUrls emptyHrefAnchor)
  /\ "" ∈ getURLs doc
  /\ count_occ string_dec (getURLs doc) "" = 1%nat
  /\ (forall doc', (count_occ string_dec (getURLs doc') "" <= 1)%nat).
Proof.
  intros Hn Hl.
  assert (Ha : goquery.Attr n "href" = ("", false))
    by (apply getAttributeValue_missing, Hl).
  assert (Hin : "" ∈ getURLs doc).
  { rewrite getURLs_first_occurrences, elem_of_first_occurrences. unfold hrefs.
    apply list_elem_of_fmap. exists n. rewrite Ha. split; [reflexivity | exact Hn]. }
  assert (Hle : forall doc', (count_occ string_dec (getURLs doc') "" <= 1)%nat).
  { intros doc'. apply count_occ_NoDup_le. rewrite getURLs_first_occurrences.
    apply NoDup_first_occurrences. }
  split; [exact Ha|]. split; [reflexivity|].
  split; [intros acc; unfold addURL; rewrite Ha; reflexivity|].
  split; [exact Hin|]. split; [|exact Hle].
  specialize (Hle doc). apply list_elem_of_In in Hin.
  apply (count_occ_In string_dec) in Hin. lia.
Qed.

Lemma missing_href_witness :
  count_occ string_dec (getURLs (docOf [bareAnchor; bareAnchor; bareAnchor])) "" = 1%nat.
Proof.
  refine (proj1 (proj2 (proj2 (proj2 (proj2
    (missing_href_is_empty_link (docOf [bareAnchor; bareAnchor; bareAnchor])
       bareAnchor _ _)))))).
  - vm_compute. constructor.
  - vm_compute. constructor.
Defined.

(** ** [getHeadings] *)

(** The [Each] loop for one level sets the entry to 1 when there is a
    match and leaves the map alone otherwise. *)
Lemma setHeading_loop (str : string) (l : list html.Node) (hs : gmap string Z) :
  fold_left (setHeading str) l hs
  = match l with [] => hs | _ :: _ => <[ ("h" ++ str)%string := 1 ]> hs end.
Proof.
  destruct l as [|n l]; [reflexivity|]. cbn [fold_left]. unfold setHeading at 2.
  induction l as [|n' l IH]; [reflexivity|]. cbn [fold_left].
  unfold setHeading at 2. rewrite insert_insert_eq. exact IH.
Qed.

Lemma setHeading_loop_lookup (str : string) (l : list html.Node)
    (hs : gmap string Z) (k : string) :
  fold_left (setHeading str) l hs !! k
  = if String.eqb k ("h" ++ str) && negb (bool_decide (l = []))
    then Some 1 else hs !! k.
Proof.
  rewrite setHeading_loop. destruct l as [|n l].
  - rewrite andb_false_r. reflexivity.
  - cbn [bool_decide negb]. rewrite andb_true_r.
    destruct (String.eqb_spec k ("h" ++ str)) as [->|Hne].
    + apply lookup_insert_eq.
    + apply lookup_insert_ne. congruence.
Qed.

Lemma setHeading_loop_dom (str : string) (l : list html.Node) (hs : gmap string Z) :
  ("h" ++ str)%string ∈ dom hs -> dom (fold_left (setHeading str) l hs) = dom hs.
Proof.
  intros Hin. rewrite setHeading_loop. destruct l; [reflexivity|].
  rewrite dom_insert_L. apply set_eq. intros k.
  rewrite elem_of_union, elem_of_singleton.
  split; [intros [->|H]; assumption | right; assumption].
Qed.

Lemma getHeadings_dom (doc : goquery.Document) :
  dom (getHeadings doc) = list_to_set headingTags.
Proof.
  unfold getHeadings. cbn [fold_left].
  change (strconv.Itoa 1) with "1". change (strconv.Itoa 2) with "2".
  change (strconv.Itoa 3) with "3". change (strconv.Itoa 4) with "4".
  change (strconv.Itoa 5) with "5". change (strconv.Itoa 6) with "6".
  repeat (rewrite setHeading_loop_dom;
          [| repeat rewrite setHeading_loop_dom; rewrite !dom_insert_L; set_solver]).
  rewrite !dom_insert_L, dom_empty_L. unfold headingTags. cbn [list_to_set].
  set_solver.
Qed.

Lemma getHeadings_lookup (doc : goquery.Document) (tag : string) :
  tag ∈ headingTags ->
  getHeadings doc !! tag
  = Some (match goquery.Find doc tag with [] => 0 | _ :: _ => 1 end).
Proof.
  intros Htag. unfold getHeadings. cbn [fold_left].
  change (strconv.Itoa 1) with "1". change (strconv.Itoa 2) with "2".
  change (strconv.Itoa 3) with "3". change (strconv.Itoa 4) with "4".
  change (strconv.Itoa 5) with "5". change (strconv.Itoa 6) with "6".
  rewrite !setHeading_loop_lookup.
  change ("h" ++ "1")%string with "h1". change ("h" ++ "2")%string with "h2".
  change ("h" ++ "3")%string with "h3". change ("h" ++ "4")%string with "h4".
  change ("h" ++ "5")%string with "h5". change ("h" ++ "6")%string with "h6".
  unfold headingTags in Htag. rewrite !elem_of_cons, elem_of_nil in Htag.
  destruct Htag as [->|[->|[->|[->|[->|[->|[]]]]]]];
    cbn [String.eqb Ascii.eqb Bool.eqb andb];
    match goal with |- context [goquery.Find doc ?t] => destruct (goquery.Find doc t) end;
    reflexivity.
Qed.

(** C2 (what the code does): the map always has the six keys, but the
    value of a level is 1 when the document has a heading of that level
    and 0 otherwise; on a page with two [h3] headings the [h3] entry
    is 1. *)
Theorem getHeadings_presence_flag (doc : goquery.Document) :
  dom (getHeadings doc) = list_to_set headingTags
  /\ size (getHeadings doc) = 6%nat
  /\ Forall (fun tag => getHeadings doc !! tag
                        = Some (match goquery.Find doc tag with [] => 0 | _ :: _ => 1 end))
       headingTags
  /\ length (goquery.Find twoH3 "h3") = 2%nat
  /\ getHeadings twoH3 !! "h3" = Some 1.
Proof.
  split; [apply getHeadings_dom|].
  split; [rewrite <- size_dom, getHeadings_dom; reflexivity|].
  split; [apply Forall_forall; intros tag Htag; apply getHeadings_lookup, Htag|].
  split; [reflexivity|].
  rewrite getHeadings_lookup; [reflexivity | unfold headingTags; set_solver].
Qed.

(** ** [versionReader] *)

Lemma versionReader_error (order : list (string * string)) (html : string) (e : error) :
  versionReader order (html, Some e) = ("", Some e).
Proof. reflexivity. Qed.

Lemma scanDoctypes_from (order : list (string * string)) (html v : string) :
  Forall (fun dm => strings.Contains html (snd dm) = false) order ->
  fold_left (fun version '(d, m) => if strings.Contains html m then d else version)
    order v = v.
Proof.
  intros H. revert v. induction H as [|[d m] order Hm _ IH]; intros v;
    cbn [fold_left]; [reflexivity|].
  cbn [snd] in Hm. rewrite Hm. apply IH.
Qed.

(** Without a matching signature every run reports absence. *)
Lemma versionReader_none (order : list (string * string)) (html : string) :
  iterationOrder order ->
  Forall (fun dm => strings.Contains html (snd dm) = false) doctypes ->
  versionReader order (html, None) = ("", None).
Proof.
  intros Hp Hf. cbn [versionReader]. f_equal. unfold scanDoctypes.
  apply scanDoctypes_from. unfold iterationOrder in Hp. rewrite Hp. exact Hf.
Qed.

(** C3 (what the code does): on a page that carries two signatures the
    version returned depends on the order in which the run iterates the
    map: one run returns HTML 5, another XHTML 1.1. *)
Theorem versionReader_order_dependent :
  strings.Contains html5QuotingXhtml11 "<!DOCTYPE html>" = true
  /\ strings.Contains html5QuotingXhtml11 (quoted "-//W3C//DTD XHTML 1.1//EN") = true
  /\ versionReader_returns html5QuotingXhtml11 "XHTML 1.1"
  /\ versionReader_returns html5QuotingXhtml11 "HTML 5".
Proof.
  split; [vm_compute; reflexivity|]. split; [vm_compute; reflexivity|]. split.
  - exists doctypes. split; [unfold iterationOrder; reflexivity | vm_compute; reflexivity].
  - exists (tl doctypes ++ [("HTML 5", "<!DOCTYPE html>")]). split.
    + unfold iterationOrder. symmetry. apply Permutation_cons_append.
    + vm_compute. reflexivity.
Qed.

(** ** The health checker *)

Section HealthCheckerFacts.

Variable httpGet : string -> option error.
Variable urls : list string.

Lemma elem_of_failing (l : string) :
  l ∈ failing httpGet urls <-> l ∈ urls /\ httpGet l <> None.
Proof.
  unfold failing. rewrite !list_elem_of_In, filter_In.
  destruct (httpGet l); intuition congruence.
Qed.

Lemma sound_init : sound httpGet urls (init urls).
Proof.
  split; [|split]; cbn [init ia gs].
  - intros l H. inversion H.
  - intros i l H. apply list_lookup_fmap_Some in H as (u & E & Hu).
    injection E as ->. eapply list_elem_of_lookup_2, Hu.
  - intros i l H. apply list_lookup_fmap_Some in H as (u & E & Hu). discriminate.
Qed.

Lemma lookup_insert_Some_cases (l : list goroutine) (i j : nat) (g g' : goroutine) :
  <[i := g]> l !! j = Some g' -> g' = g \/ l !! j = Some g'.
Proof.
  intros H. destruct (decide (i = j)) as [->|Hne].
  - destruct (decide (j < length l)%nat) as [Hlt|Hge].
    + rewrite list_lookup_insert_eq in H by exact Hlt. left. congruence.
    + rewrite list_insert_ge in H by lia. right. exact H.
  - rewrite list_lookup_insert_ne in H by exact Hne. right. exact H.
Qed.

Lemma sound_step (e : event) (s s' : state) :
  sound httpGet urls s -> step httpGet e s = Some s' -> sound httpGet urls s'.
Proof.
  intros (Hia & Hget & Hsend) Hstep. unfold step in Hstep.
  destruct (mainAt s); [|discriminate|discriminate].
  destruct e as [i|i|i|].
  - destruct (gs s !! i) as [[l| | |]|] eqn:Hi; try discriminate.
    injection Hstep as <-. split; [exact Hia|]. cbn [gs]. split.
    + intros j l' H. apply lookup_insert_Some_cases in H as [H|H].
      * destruct (httpGet l); discriminate.
      * eapply Hget, H.
    + intros j l' H. apply lookup_insert_Some_cases in H as [H|H].
      * destruct (httpGet l) eqn:E; [|discriminate]. injection H as ->.
        apply elem_of_failing. split; [eapply Hget, Hi | congruence].
      * eapply Hsend, H.
  - destruct (gs s !! i) as [[| l | |]|] eqn:Hi; try discriminate.
    destruct (closed s); injection Hstep as <-.
    + split; [exact Hia|]. split; assumption.
    + cbn [ia gs]. split; [|split].
      * intros l' H. apply elem_of_app in H as [H|H]; [apply Hia, H|].
        apply list_elem_of_singleton in H as ->. eapply Hsend, Hi.
      * intros j l' H. apply lookup_insert_Some_cases in H as [H|H];
          [discriminate | eapply Hget, H].
      * intros j l' H. apply lookup_insert_Some_cases in H as [H|H];
          [discriminate | eapply Hsend, H].
  - destruct (gs s !! i) as [[| | |]|] eqn:Hi; try discriminate.
    destruct (closed s); injection Hstep as <-.
    + split; [exact Hia|]. split; assumption.
    + cbn [ia gs]. split; [exact Hia|]. split.
      * intros j l' H. apply lookup_insert_Some_cases in H as [H|H];
          [discriminate | eapply Hget, H].
      * intros j l' H. apply lookup_insert_Some_cases in H as [H|H];
          [discriminate | eapply Hsend, H].
  - destruct (closed s); [|discriminate]. injection Hstep as <-.
    split; [exact Hia|]. split; assumption.
Qed.

Lemma sound_run (sched : list event) (s s' : state) :
  sound httpGet urls s -> run httpGet sched s = Some s' -> sound httpGet urls s'.
Proof.
  revert s. induction sched as [|e sched IH]; intros s Hs Hrun; cbn [run] in Hrun.
  - injection Hrun as <-. exact Hs.
  - destruct (step httpGet e s) as [s1|] eqn:E; [|discriminate].
    eapply IH; [eapply sound_step; eassumption | exact Hrun].
Qed.

(** Reachable links are never reported: whatever the schedule, [ia]
    holds only links whose probe failed. *)
Lemma ia_only_failed (sched : list event) (s : state) (l : string) :
  run httpGet sched (init urls) = Some s -> l ∈ ia s ->
  l ∈ urls /\ httpGet l <> None.
Proof.
  intros Hrun Hl. apply elem_of_failing.
  apply (sound_run sched (init urls) s sound_init Hrun), Hl.
Qed.

Hypothesis all_fail : forall u, u ∈ urls -> httpGet u <> None.

Lemma allDown_step (e : event) (s s' : state) :
  allDown urls s -> step httpGet e s = Some s' -> allDown urls s'.
Proof.
  intros (Hc & Hm & Hget & Hsl) Hstep. unfold step in Hstep. rewrite Hm, Hc in Hstep.
  destruct e as [i|i|i|].
  - destruct (gs s !! i) as [[l| | |]|] eqn:Hi; try discriminate.
    injection Hstep as <-. split; [reflexivity|]. split; [reflexivity|]. cbn [gs].
    pose proof (all_fail l (Hget i l Hi)) as Hl.
    destruct (httpGet l) as [err|]; [|congruence]. split.
    + intros j l' H. apply lookup_insert_Some_cases in H as [H|H];
        [discriminate | eapply Hget, H].
    + intros j H. apply lookup_insert_Some_cases in H as [H|H];
        [discriminate | eapply Hsl, H].
  - destruct (gs s !! i) as [[| l | |]|] eqn:Hi; try discriminate.
    injection Hstep as <-. split; [reflexivity|]. split; [reflexivity|]. cbn [gs].
    split.
    + intros j l' H. apply lookup_insert_Some_cases in H as [H|H];
        [discriminate | eapply Hget, H].
    + intros j H. apply lookup_insert_Some_cases in H as [H|H];
        [discriminate | eapply Hsl, H].
  - destruct (gs s !! i) as [[| | |]|] eqn:Hi; try discriminate.
    exfalso. eapply Hsl, Hi.
  - discriminate.
Qed.

(** X20: when every probe fails nobody closes [c]: [main] never leaves
    its loop, whatever the schedule. *)
Lemma never_done_when_all_fail (sched : list event) (s : state) :
  run httpGet sched (init urls) = Some s -> mainAt s = Ranging.
Proof.
  assert (H : forall s0, allDown urls s0 ->
                         run httpGet sched s0 = Some s -> allDown urls s).
  { induction sched as [|e sched' IH]; intros s0 H0 Hrun; cbn [run] in Hrun.
    - injection Hrun as <-. exact H0.
    - destruct (step httpGet e s0) as [s1|] eqn:E; [|discriminate].
      eapply IH; [eapply allDown_step; eassumption | exact Hrun]. }
  intros Hrun. apply (H (init urls)); [|exact Hrun].
  split; [reflexivity|]. split; [reflexivity|]. cbn [init gs]. split.
  - intros i l Hi. apply list_lookup_fmap_Some in Hi as (u & E & Hu).
    injection E as ->. eapply list_elem_of_lookup_2, Hu.
  - intros i Hi. apply list_lookup_fmap_Some in Hi as (u & E & Hu). discriminate.
Qed.

End HealthCheckerFacts.

Lemma step_no_links (httpGet : string -> option error) (e : event) :
  step httpGet e (init []) = None.
Proof. destruct e; reflexivity. Qed.

(** C1 (what the code does): without links no event can happen and
    [main] never leaves its loop; with two links of which the first
    answers, [main] is done after one probe has reported, while the
    second is still under way. *)
Theorem done_before_all_reported :
  (forall httpGet e, step httpGet e (init []) = None)
  /\ (forall httpGet sched, mainAt <$> run httpGet sched (init []) <> Some Done)
  /\ run onlyAUp [EvGet 0; EvClose 0; EvRangeEnd] (init [linkA; linkB])
     = Some (mkState [Returned; Getting linkB] true [] Done)
  /\ completed (mkState [Returned; Getting linkB] true [] Done) = 1%nat.
Proof.
  split; [apply step_no_links|]. split; [|split; reflexivity].
  intros httpGet [|e sched]; cbn [run].
  - discriminate.
  - rewrite step_no_links. discriminate.
Qed.

(** C6 (what the code does): of three links only the first answers. One
    run ends with [ia] holding the second link but not the third, whose
    probe fails as well; another run is aborted when the third probe
    fails and sends on the channel that the first has closed. *)
Theorem failed_probe_lost_or_fatal :
  failing onlyAUp [linkA; linkB; linkC] = [linkB; linkC]
  /\ run onlyAUp [EvGet 1; EvSend 1; EvGet 0; EvClose 0; EvRangeEnd]
       (init [linkA; linkB; linkC])
     = Some (mkState [Returned; Returned; Getting linkC] true [linkB] Done)
  /\ run onlyAUp [EvGet 1; EvSend 1; EvGet 0; EvClose 0; EvGet 2; EvSend 2]
       (init [linkA; linkB; linkC])
     = Some (mkState [Returned; Returned; Sending linkC] true [linkB] Panicked).
Proof. split; [|split]; reflexivity. Qed.

(** * Further properties of [main.go] *)

(** ** [Filter], composed *)

(** X1: filtering a concatenation is concatenating the filtered parts. *)
Theorem Filter_app (ss1 ss2 : list string) (f : string -> bool) :
  Filter (ss1 ++ ss2) f = Filter ss1 f ++ Filter ss2 f.
Proof. rewrite !Filter_filter. apply List.filter_app. Qed.

(** X2: filtering twice is filtering once by both predicates, so the
    order of two filters does not matter. *)
Theorem Filter_Filter (ss : list string) (f g : string -> bool) :
  Filter (Filter ss f) g = Filter ss (fun s => f s && g s)
  /\ Filter (Filter ss f) g = Filter (Filter ss g) f.
Proof.
  rewrite !Filter_filter, !filter_filter_andb. split; [reflexivity|].
  apply filter_ext. intros s. apply andb_comm.
Qed.

Lemma filter_id_iff (f : string -> bool) (ss : list string) :
  List.filter f ss = ss <-> Forall (fun s => f s = true) ss.
Proof.
  split.
  - intros E. apply Forall_forall. intros s Hs.
    rewrite <- E, list_elem_of_In, filter_In in Hs. apply Hs.
  - induction 1 as [|s ss Hs _ IH]; cbn [List.filter]; [reflexivity|].
    rewrite Hs, IH. reflexivity.
Qed.

Lemma filter_nil_iff (f : string -> bool) (ss : list string) :
  List.filter f ss = [] <-> Forall (fun s => f s = false) ss.
Proof.
  split.
  - intros E. apply Forall_forall. intros s Hs.
    destruct (f s) eqn:Hf; [|reflexivity]. exfalso.
    assert (H : In s (List.filter f ss))
      by (apply filter_In; split; [apply list_elem_of_In, Hs | exact Hf]).
    rewrite E in H. exact H.
  - induction 1 as [|s ss Hs _ IH]; cbn [List.filter]; [reflexivity|].
    rewrite Hs. exact IH.
Qed.

(** X3: [Filter] is never longer than its input; it returns the whole
    input exactly when every element passes, and nothing exactly when
    none does. *)
Theorem Filter_all_or_nothing (ss : list string) (f : string -> bool) :
  (length (Filter ss f) <= length ss)%nat
  /\ (Filter ss f = ss <-> Forall (fun s => f s = true) ss)
  /\ (Filter ss f = [] <-> Forall (fun s => f s = false) ss).
Proof.
  rewrite Filter_filter. split; [apply List.filter_length_le|].
  split; [apply filter_id_iff | apply filter_nil_iff].
Qed.

(** ** The classifier, further *)

Lemma string_app_assoc (a b c : string) :
  ((a ++ b) ++ c = a ++ (b ++ c))%string.
Proof.
  induction a as [|x a IH]; [reflexivity|].
  change (String x ((a ++ b) ++ c) = String x (a ++ (b ++ c)))%string.
  rewrite IH. reflexivity.
Qed.

Lemma filter_sublist_impl (f g : string -> bool) (ss : list string) :
  (forall s, f s = true -> g s = true) ->
  List.filter f ss `sublist_of` List.filter g ss.
Proof.
  intros Himp. induction ss as [|s ss IH]; cbn [List.filter]; [constructor|].
  destruct (f s) eqn:Hf.
  - rewrite (Himp s Hf). apply sublist_skip, IH.
  - destruct (g s); [apply sublist_cons, IH | exact IH].
Qed.

(** X4: the empty link, which [getURLs] yields for an anchor without
    [href], is internal only when the base URL is empty itself. *)
Theorem empty_link_internal_iff (baseURL : string) :
  findinternals baseURL "" = true <-> baseURL = "".
Proof.
  rewrite findinternals_spec. unfold starts_with. split.
  - intros [[t Ht] | [[t Ht] | [t Ht]]].
    + destruct baseURL; [reflexivity | discriminate].
    + discriminate.
    + discriminate.
  - intros ->. left. exists "". reflexivity.
Qed.

(** X5: a shorter base URL accepts more: when [baseURL] starts with
    [baseURL'], the links internal for [baseURL] are among those
    internal for [baseURL'], in the same order. *)
Theorem internals_prefix_monotone (baseURL baseURL' : string) (urls : list string) :
  starts_with baseURL baseURL' ->
  internals baseURL urls `sublist_of` internals baseURL' urls.
Proof.
  intros [t ->]. unfold internals. rewrite !Filter_filter.
  apply filter_sublist_impl. intros s. rewrite !findinternals_spec.
  intros [[u ->] | H]; [|right; exact H].
  left. exists (t ++ u)%string. apply string_app_assoc.
Qed.

Lemma internals_prefix_monotone_witness :
  internals "http://x.test/docs/" ["http://x.test/docs/a"; "http://x.test/b"]
  `sublist_of` internals "http://x.test/" ["http://x.test/docs/a"; "http://x.test/b"].
Proof.
  apply (internals_prefix_monotone "http://x.test/docs/" "http://x.test/").
  exists "docs/". reflexivity.
Defined.

(** X6: classifying again changes nothing: the internal links of the
    internal links are all of them, none of them is external, and none
    of the external links is internal. *)
Theorem internals_idempotent (baseURL : string) (urls : list string) :
  internals baseURL (internals baseURL urls) = internals baseURL urls
  /\ externals baseURL (internals baseURL urls) = []
  /\ internals baseURL (externals baseURL urls) = [].
Proof.
  unfold internals, externals. rewrite !Filter_filter, !filter_filter_andb.
  split; [|split].
  - apply filter_ext. intros s. apply andb_diag.
  - apply filter_nil_iff, Forall_forall. intros s _. apply andb_negb_r.
  - apply filter_nil_iff, Forall_forall. intros s _. apply andb_negb_l.
Qed.

(** X7: the two numbers [main] prints add up to the number of links, and
    the external one, a difference of two lengths, is never negative. *)
Theorem externalCount_bounds (baseURL : string) (urls : list string) :
  0 <= externalCount baseURL urls <= Z.of_nat (length urls)
  /\ Z.of_nat (length (internals baseURL urls)) + externalCount baseURL urls
     = Z.of_nat (length urls).
Proof.
  unfold externalCount, internals. rewrite Filter_filter.
  pose proof (List.filter_length_le (findinternals baseURL) urls). lia.
Qed.

(** ** The login links, further *)

Lemma isASCII_cons (c : ascii) (s : string) :
  strings.isASCII (String c s)
  = (N_of_ascii c <? strings.RuneSelf)%N && strings.isASCII s.
Proof. reflexivity. Qed.

Lemma isASCII_app (a b : string) :
  strings.isASCII (a ++ b) = strings.isASCII a && strings.isASCII b.
Proof.
  induction a as [|c a IH]; [reflexivity|].
  change (strings.isASCII (String c (a ++ b))
          = strings.isASCII (String c a) && strings.isASCII b).
  rewrite !isASCII_cons, IH. apply andb_assoc.
Qed.

Lemma upper_bytes_app (a b : string) :
  strings.upper_bytes (a ++ b)
  = (strings.upper_bytes a ++ strings.upper_bytes b)%string.
Proof.
  induction a as [|c a IH]; [reflexivity|].
  change (String (strings.upper_byte c) (strings.upper_bytes (a ++ b))
          = String (strings.upper_byte c)
              (strings.upper_bytes a ++ strings.upper_bytes b)%string).
  rewrite IH. reflexivity.
Qed.

Lemma upper_byte_ascii (c : ascii) :
  (N_of_ascii (strings.upper_byte c) <? strings.RuneSelf)%N = true ->
  (N_of_ascii c <? strings.RuneSelf)%N = true.
Proof.
  unfold strings.upper_byte, strings.RuneSelf. cbv zeta.
  destruct ((97 <=? N_of_ascii c)%N && (N_of_ascii c <=? 122)%N) eqn:E; [|tauto].
  intros _. apply andb_true_iff in E as [_ E].
  apply N.leb_le in E. apply N.ltb_lt. lia.
Qed.

Lemma isASCII_upper_bytes (s : string) :
  strings.isASCII (strings.upper_bytes s) = true -> strings.isASCII s = true.
Proof.
  induction s as [|c s IH]; [reflexivity|]. cbn [strings.upper_bytes].
  rewrite !isASCII_cons, !andb_true_iff. intros [H1 H2].
  split; [apply upper_byte_ascii, H1 | apply IH, H2].
Qed.

(** X8: the keyword is found in any mix of upper and lower case: an
    ASCII link that holds a spelling of LOGIN or of SIGNIN is a login
    link. *)
Theorem login_keyword_any_case (MapUnicodeToUpper : string -> string)
    (pre w post : string) :
  strings.isASCII pre = true ->
  strings.isASCII post = true ->
  strings.upper_bytes w = "LOGIN" \/ strings.upper_bytes w = "SIGNIN" ->
  containsLoginByURL MapUnicodeToUpper (pre ++ w ++ post) = true.
Proof.
  intros Hpre Hpost Hw.
  assert (Hasc : strings.isASCII w = true)
    by (apply isASCII_upper_bytes; destruct Hw as [-> | ->]; reflexivity).
  unfold containsLoginByURL, strings.ToUpper. cbv zeta.
  rewrite !isASCII_app, Hpre, Hasc, Hpost. cbn [andb].
  rewrite !upper_bytes_app. apply orb_true_iff.
  destruct Hw as [-> | ->]; [left | right]; apply Contains_spec;
    exists (strings.upper_bytes pre), (strings.upper_bytes post); reflexivity.
Qed.

Lemma login_keyword_any_case_witness :
  containsLoginByURL id ("/user/" ++ "LogIn" ++ "?next=/") = true.
Proof.
  apply (login_keyword_any_case id "/user/" "LogIn" "?next=/").
  - reflexivity.
  - reflexivity.
  - left. reflexivity.
Defined.

(** X9: the login links are one pass over all links with both tests; they
    keep the order of the links and none of them is external. *)
Theorem login_one_pass (MapUnicodeToUpper : string -> string)
    (baseURL : string) (urls : list string) :
  login MapUnicodeToUpper baseURL urls
  = Filter urls (fun s => findinternals baseURL s
                          && containsLoginByURL MapUnicodeToUpper s)
  /\ login MapUnicodeToUpper baseURL urls `sublist_of` urls
  /\ (forall l, l ∈ login MapUnicodeToUpper baseURL urls ->
                ~ l ∈ externals baseURL urls).
Proof.
  unfold login, internals, externals. split; [|split].
  - rewrite !Filter_filter. apply filter_filter_andb.
  - rewrite !Filter_filter. etransitivity; apply filter_sublist.
  - intros l. rewrite !elem_of_Filter, negb_true_iff.
    intros [[_ H1] _] [_ H2]. congruence.
Qed.


(** ** [Contains] and [getURLs], further *)

(** X11: [Contains] answers true exactly for the members of the slice. *)
Theorem Contains_iff_member (urls : list string) (url : string) :
  (Contains urls url = true <-> url ∈ urls)
  /\ (Contains urls url = false <-> ~ url ∈ urls).
Proof.
  split; [apply Contains_elem_of|].
  rewrite <- Contains_elem_of. destruct (Contains urls url); split; congruence.
Qed.

(** X12: anchors that follow in the document only add links at the end:
    the links of a document whose anchors extend those of another start
    with the other's links, and any further link is the [href] of one
    of the added anchors. *)
Theorem getURLs_prefix (doc1 doc2 : goquery.Document) (more : list html.Node) :
  goquery.Find doc2 "a" = goquery.Find doc1 "a" ++ more ->
  getURLs doc1 `prefix_of` getURLs doc2
  /\ (forall u, u ∈ getURLs doc2 ->
                u ∈ getURLs doc1
                \/ u ∈ map (fun s => fst (goquery.Attr s "href")) more).
Proof.
  intros H. unfold getURLs. rewrite H, fold_left_app, (getURLs_loop more).
  split; [eexists; reflexivity|].
  intros u Hu. apply elem_of_app in Hu as [Hu|Hu]; [left; exact Hu | right].
  apply list_elem_of_In, filter_In in Hu as [Hu _].
  apply list_elem_of_In in Hu. apply elem_of_first_occurrences, Hu.
Qed.

Lemma getURLs_prefix_witness :
  getURLs (docOf [bareAnchor]) `prefix_of` getURLs (docOf [bareAnchor; emptyHrefAnchor]).
Proof.
  apply (getURLs_prefix (docOf [bareAnchor]) (docOf [bareAnchor; emptyHrefAnchor])
           [emptyHrefAnchor]).
  reflexivity.
Defined.

(** X13: there are never more links than anchors, and the first link is
    the [href] of the first anchor of the document. *)
Theorem getURLs_head_length (doc : goquery.Document) :
  (length (getURLs doc) <= length (goquery.Find doc "a"))%nat
  /\ head (getURLs doc) = head (hrefs doc).
Proof.
  rewrite getURLs_first_occurrences. split.
  - etransitivity; [apply sublist_length, first_occurrences_sublist|].
    unfold hrefs. rewrite length_map. reflexivity.
  - destruct (hrefs doc); reflexivity.
Qed.

(** ** [versionReader], further *)

(** The loop from any starting value: either nothing matched and the
    value is untouched, or the result is the name of a matching entry. *)
Lemma scan_cases (order : list (string * string)) (html v : string) :
  (fold_left (fun version '(d, m) => if strings.Contains html m then d else version)
     order v = v
   /\ Forall (fun dm => strings.Contains html (snd dm) = false) order)
  \/ exists m,
       (fold_left (fun version '(d, m) => if strings.Contains html m then d else version)
          order v, m) ∈ order
       /\ strings.Contains html m = true.
Proof.
  revert v. induction order as [|[d m] order IH]; intros v; cbn [fold_left].
  - left. split; [reflexivity | constructor].
  - destruct (IH (if strings.Contains html m then d else v)) as [[E Hf] | (m' & Hin & Hm')].
    + rewrite E. destruct (strings.Contains html m) eqn:Hm.
      * right. exists m. split; [left | exact Hm].
      * left. split; [reflexivity | constructor; [exact Hm | exact Hf]].
    + right. exists m'. split; [right; exact Hin | exact Hm'].
Qed.

Lemma doctypes_named : Forall (fun dm => fst dm <> "") doctypes.
Proof. unfold doctypes. repeat constructor; discriminate. Qed.

Lemma versionReader_result (order : list (string * string)) (html : string) :
  order ≡ₚ doctypes ->
  (scanDoctypes order html = ""
   /\ Forall (fun dm => strings.Contains html (snd dm) = false) doctypes)
  \/ (scanDoctypes order html <> ""
      /\ exists m, (scanDoctypes order html, m) ∈ doctypes
                   /\ strings.Contains html m = true).
Proof.
  intros Hp. unfold scanDoctypes.
  destruct (scan_cases order html "") as [[E Hf] | (m & Hin & Hm)].
  - left. split; [exact E | rewrite <- Hp; exact Hf].
  - right. apply (elem_of_Permutation_proper _ _ _ Hp) in Hin.
    split; [|exists m; split; assumption].
    pose proof doctypes_named as Hn. rewrite Forall_forall in Hn.
    apply (Hn _ Hin).
Qed.

(** X14: whatever the iteration order, [versionReader] returns the empty
    string when no signature of the table occurs in the markup, and
    otherwise the name of an entry whose signature does occur. *)
Theorem versionReader_sound (order : list (string * string)) (html : string) :
  iterationOrder order ->
  exists v,
    versionReader order (html, None) = (v, None)
    /\ ((v = "" /\ Forall (fun dm => strings.Contains html (snd dm) = false) doctypes)
        \/ (v <> "" /\ exists m, (v, m) ∈ doctypes /\ strings.Contains html m = true)).
Proof.
  unfold iterationOrder. intros Hp. exists (scanDoctypes order html).
  split; [reflexivity | apply versionReader_result, Hp].
Qed.

Lemma versionReader_sound_witness :
  exists v,
    versionReader doctypes ("<html></html>", None) = (v, None)
    /\ ((v = ""
         /\ Forall (fun dm => strings.Contains "<html></html>" (snd dm) = false) doctypes)
        \/ (v <> ""
            /\ exists m, (v, m) ∈ doctypes
                         /\ strings.Contains "<html></html>" m = true)).
Proof.
  apply (versionReader_sound doctypes "<html></html>").
  unfold iterationOrder. reflexivity.
Defined.

(** X15: when the signatures that occur in the markup all belong to one
    standard, every run returns that standard, whatever the iteration
    order. *)
Theorem versionReader_unique_match (order : list (string * string))
    (html d m : string) :
  iterationOrder order ->
  (d, m) ∈ doctypes ->
  strings.Contains html m = true ->
  (forall d' m', (d', m') ∈ doctypes -> strings.Contains html m' = true -> d' = d) ->
  versionReader order (html, None) = (d, None).
Proof.
  unfold iterationOrder. intros Hp Hin Hm Huniq.
  cbn [versionReader]. f_equal. unfold scanDoctypes.
  destruct (scan_cases order html "") as [[_ Hf] | (m' & Hin' & Hm')].
  - rewrite Hp, Forall_forall in Hf. specialize (Hf _ Hin). cbn [snd] in Hf. congruence.
  - apply (elem_of_Permutation_proper _ _ _ Hp) in Hin'. apply (Huniq _ _ Hin' Hm').
Qed.

Lemma versionReader_unique_match_witness :
  versionReader (tl doctypes ++ [("HTML 5", "<!DOCTYPE html>")])
    ("<!DOCTYPE html><html><head></head><body></body></html>", None)
  = ("HTML 5", None).
Proof.
  apply (versionReader_unique_match _ _ "HTML 5" "<!DOCTYPE html>").
  - unfold iterationOrder. symmetry. apply Permutation_cons_append.
  - unfold doctypes. left.
  - vm_compute. reflexivity.
  - intros d' m' Hin. unfold doctypes in Hin.
    repeat (apply elem_of_cons in Hin as [Hin | Hin];
            [injection Hin as -> ->; vm_compute; intros H;
             first [reflexivity | discriminate H] |]).
    inversion Hin.
Defined.

(** X16: the loop keeps the last match of its iteration order: an entry
    whose signature occurs is returned when no later entry matches,
    whatever matched before it. *)
Theorem scanDoctypes_last_match (before after : list (string * string))
    (d m html : string) :
  strings.Contains html m = true ->
  Forall (fun dm => strings.Contains html (snd dm) = false) after ->
  scanDoctypes (before ++ (d, m) :: after) html = d.
Proof.
  intros Hm Hf. unfold scanDoctypes. rewrite fold_left_app. cbn [fold_left].
  rewrite Hm. apply scanDoctypes_from, Hf.
Qed.

Lemma scanDoctypes_last_match_witness :
  scanDoctypes ([("HTML 5", "<!DOCTYPE html>")]
                ++ ("XHTML 1.1", quoted "-//W3C//DTD XHTML 1.1//EN") :: [])
    html5QuotingXhtml11
  = "XHTML 1.1".
Proof.
  apply (scanDoctypes_last_match [("HTML 5", "<!DOCTYPE html>")] []).
  - vm_compute. reflexivity.
  - constructor.
Defined.

(** ** [fetch] *)






Lemma getHeadings_values (doc : goquery.Document) (tag : string) (v : Z) :
  getHeadings doc !! tag = Some v -> v = 0 \/ v = 1.
Proof.
  intros H.
  assert (Htag : tag ∈ headingTags).
  { apply (elem_of_list_to_set (C := gset string)). rewrite <- (getHeadings_dom doc).
    apply elem_of_dom. eexists. exact H. }
  rewrite (getHeadings_lookup doc tag Htag) in H. injection H as <-.
  destruct (goquery.Find doc tag); [left | right]; reflexivity.
Qed.

(** X18: every result of [fetch] has pairwise distinct urls, exactly the
    six heading keys with values 0 or 1, and a version that is empty or
    a name of the table; when [doc.Html()] fails the version is empty,
    one line is printed, and headings and urls are extracted all the
    same. *)
Theorem fetch_wellformed (order : list (string * string))
    (docHtml : string * option error) (doc : goquery.Document) :
  iterationOrder order ->
  NoDup (fetchResult.urls (snd (fetch order docHtml doc)))
  /\ dom (fetchResult.headings (snd (fetch order docHtml doc)))
     = list_to_set headingTags
  /\ (forall tag v,
        fetchResult.headings (snd (fetch order docHtml doc)) !! tag = Some v ->
        v = 0 \/ v = 1)
  /\ (fetchResult.version (snd (fetch order docHtml doc)) = ""
      \/ exists m, (fetchResult.version (snd (fetch order docHtml doc)), m) ∈ doctypes)
  /\ (forall e, snd docHtml = Some e ->
        fetchResult.version (snd (fetch order docHtml doc)) = ""
        /\ length (fst (fetch order docHtml doc)) = 1%nat
        /\ fetchResult.urls (snd (fetch order docHtml doc)) = getURLs doc
        /\ fetchResult.headings (snd (fetch order docHtml doc)) = getHeadings doc).
Proof.
  intros Hp. destruct docHtml as [html err].
  assert (Hfr : snd (fetch order (html, err) doc)
                = fetchResult.mk (fst (versionReader order (html, err)))
                    (goquery.Text (goquery.Contents (goquery.Find doc "title")))
                    (getHeadings doc) (getURLs doc)).
  { unfold fetch. destruct (versionReader order (html, err)) as [v e]. reflexivity. }
  rewrite Hfr. cbn [fetchResult.urls fetchResult.headings fetchResult.version].
  split; [rewrite getURLs_first_occurrences; apply NoDup_first_occurrences|].
  split; [apply getHeadings_dom|].
  split; [intros tag v; apply getHeadings_values|]. split.
  - destruct err as [e|]; [left; reflexivity|].
    cbn [versionReader fst].
    destruct (versionReader_result order html Hp) as [[E _] | (_ & m & Hin & _)];
      [left; exact E | right; exists m; exact Hin].
  - intros e He. cbn [snd] in He. subst err.
    split; [reflexivity|]. split; [|split; reflexivity].
    unfold fetch. cbn [versionReader]. destruct e. reflexivity.
Qed.

Lemma fetch_wellformed_witness :
  NoDup (fetchResult.urls
           (snd (fetch doctypes ("", Some (errorString "render failed")) twoH3))).
Proof.
  apply (fetch_wellformed doctypes ("", Some (errorString "render failed")) twoH3).
  unfold iterationOrder. reflexivity.
Defined.

(** ** The health checker, further *)

Lemma pending_insert (l : list goroutine) (i : nat) (g0 : goroutine) :
  l !! i = Some g0 ->
  exists A B,
    flat_map pendingLink l = A ++ pendingLink g0 ++ B
    /\ forall g, flat_map pendingLink (<[i := g]> l) = A ++ pendingLink g ++ B.
Proof.
  intros H. exists (flat_map pendingLink (take i l)),
                   (flat_map pendingLink (drop (S i) l)).
  split.
  - rewrite <- (take_drop_middle l i g0 H) at 1. rewrite flat_map_app. reflexivity.
  - intros g. rewrite insert_take_drop by (eapply lookup_lt_Some, H).
    rewrite flat_map_app. reflexivity.
Qed.

Lemma pending_init (urls : list string) : pending (init urls) = urls.
Proof.
  unfold pending. cbn [init gs]. induction urls as [|u urls IH]; [reflexivity|].
  cbn [map flat_map pendingLink app]. rewrite IH. reflexivity.
Qed.

Lemma submseteq_filter_bool (f : string -> bool) (l k : list string) :
  l ⊆+ k -> List.filter f l ⊆+ List.filter f k.
Proof.
  induction 1 as [|x l k _ IH|x y l|x l k _ IH|l k m _ IH1 _ IH2]; cbn [List.filter].
  - constructor.
  - destruct (f x); [apply submseteq_skip|]; exact IH.
  - destruct (f x), (f y); try reflexivity. apply submseteq_swap.
  - destruct (f x); [apply submseteq_cons|]; exact IH.
  - etransitivity; eassumption.
Qed.

Lemma submseteq_NoDup (l k : list string) : l ⊆+ k -> NoDup k -> NoDup l.
Proof.
  intros H Hk. apply submseteq_Permutation in H as [k' Hp].
  rewrite Hp in Hk. apply NoDup_app in Hk. apply Hk.
Qed.

Section HealthCheckerMore.

Variable httpGet : string -> option error.
Variable urls : list string.

Lemma accounted_step (e : event) (s s' : state) :
  ia s ++ pending s ⊆+ urls -> step httpGet e s = Some s' ->
  ia s' ++ pending s' ⊆+ urls.
Proof.
  intros Hinv Hstep. unfold step in Hstep.
  destruct (mainAt s); [|discriminate|discriminate].
  unfold pending in *. destruct e as [i|i|i|].
  - destruct (gs s !! i) as [[l| | |]|] eqn:Hi; try discriminate.
    injection Hstep as <-. cbn [ia gs].
    destruct (pending_insert _ _ _ Hi) as (A & B & E & E'). rewrite E in Hinv.
    rewrite E'. destruct (httpGet l); cbn [pendingLink] in *; [exact Hinv|].
    etransitivity; [|exact Hinv].
    apply submseteq_skips_l, submseteq_skips_l. cbn [app]. apply submseteq_cons.
    reflexivity.
  - destruct (gs s !! i) as [[| l | |]|] eqn:Hi; try discriminate.
    destruct (closed s); injection Hstep as <-; cbn [ia gs]; [exact Hinv|].
    destruct (pending_insert _ _ _ Hi) as (A & B & E & E'). rewrite E in Hinv.
    rewrite E'. cbn [pendingLink app] in *.
    etransitivity; [|exact Hinv]. apply Permutation_submseteq.
    rewrite <- app_assoc. apply Permutation_app_head. cbn [app].
    apply Permutation_middle.
  - destruct (gs s !! i) as [[| | |]|] eqn:Hi; try discriminate.
    destruct (closed s); injection Hstep as <-; cbn [ia gs]; [exact Hinv|].
    destruct (pending_insert _ _ _ Hi) as (A & B & E & E'). rewrite E in Hinv.
    rewrite E'. exact Hinv.
  - destruct (closed s); [|discriminate]. injection Hstep as <-. exact Hinv.
Qed.

Lemma accounted_run (sched : list event) (s s' : state) :
  ia s ++ pending s ⊆+ urls -> run httpGet sched s = Some s' ->
  ia s' ++ pending s' ⊆+ urls.
Proof.
  revert s. induction sched as [|e sched IH]; intros s Hs Hrun; cbn [run] in Hrun.
  - injection Hrun as <-. exact Hs.
  - destruct (step httpGet e s) as [s1|] eqn:E; [|discriminate].
    eapply IH; [eapply accounted_step; eassumption | exact Hrun].
Qed.

(** X19: whatever the schedule, [ia] holds failed links only, each at
    most as often as the links have it: never more entries than failed
    probes, and no link twice when the links are distinct. *)
Theorem reported_at_most_once (sched : list event) (s : state) :
  run httpGet sched (init urls) = Some s ->
  ia s ⊆+ failing httpGet urls
  /\ (length (ia s) <= length (failing httpGet urls))%nat
  /\ (NoDup urls -> NoDup (ia s)).
Proof.
  intros Hrun.
  assert (Hsub : ia s ⊆+ urls).
  { etransitivity; [apply submseteq_inserts_r; reflexivity|].
    apply (accounted_run sched (init urls) s); [|exact Hrun].
    rewrite pending_init. reflexivity. }
  assert (Hf : ia s ⊆+ failing httpGet urls).
  { unfold failing.
    rewrite <- (proj2 (filter_id_iff
      (fun u => match httpGet u with Some _ => true | None => false end) (ia s))).
    - apply submseteq_filter_bool, Hsub.
    - apply Forall_forall. intros l Hl.
      destruct (ia_only_failed httpGet urls sched s l Hrun Hl) as [_ Hne].
      destruct (httpGet l); [reflexivity | congruence]. }
  split; [exact Hf|]. split; [apply submseteq_length, Hf|].
  intros Hnd. apply (submseteq_NoDup _ urls Hsub Hnd).
Qed.

Lemma tracked_init : tracked httpGet urls (init urls).
Proof.
  split; [|split; [|split]]; cbn [init gs closed mainAt].
  - intros i l H. apply list_lookup_fmap_Some in H as (u & E & Hu).
    injection E as ->. exact Hu.
  - intros i H. apply list_lookup_fmap_Some in H as (u & E & Hu). discriminate.
  - discriminate.
  - intros H. contradiction.
Qed.

Lemma tracked_step (e : event) (s s' : state) :
  tracked httpGet urls s -> step httpGet e s = Some s' -> tracked httpGet urls s'.
Proof.
  intros (Hget & Hsl & Hcl & Hm) Hstep. unfold step in Hstep.
  destruct (mainAt s) eqn:Hmain; [|discriminate|discriminate].
  assert (Hkeep : forall i g0 g,
            gs s !! i = Some g0 -> g0 <> Returned -> closed s = true ->
            exists j u, urls !! j = Some u /\ httpGet u = None
                        /\ <[i := g]> (gs s) !! j = Some Returned).
  { intros i g0 g Hi Hne Hc. destruct (Hcl Hc) as (j & u & Hu & Hok & Hj).
    exists j, u. split; [exact Hu|]. split; [exact Hok|].
    rewrite list_lookup_insert_ne; [exact Hj|]. intros ->. congruence. }
  destruct e as [i|i|i|].
  - destruct (gs s !! i) as [[l| | |]|] eqn:Hi; try discriminate.
    injection Hstep as <-. cbn [tracked gs closed mainAt]. split; [|split; [|split]].
    + intros j l' H. apply list_lookup_insert_Some in H as [(_ & E & _) | (_ & H)].
      * destruct (httpGet l); discriminate.
      * eapply Hget, H.
    + intros j H. apply list_lookup_insert_Some in H as [(<- & E & _) | (_ & H)].
      * exists l. split; [eapply Hget, Hi|]. destruct (httpGet l); [discriminate|reflexivity].
      * eapply Hsl, H.
    + intros Hc. eapply Hkeep; [exact Hi | discriminate | exact Hc].
    + intros H. contradiction.
  - destruct (gs s !! i) as [[| l | |]|] eqn:Hi; try discriminate.
    destruct (closed s) eqn:Hc; injection Hstep as <-; cbn [tracked gs closed mainAt].
    + split; [exact Hget|]. split; [exact Hsl|]. split; [intros _; apply Hcl; reflexivity|].
      reflexivity.
    + split; [|split; [|split]].
      * intros j l' H. apply list_lookup_insert_Some in H as [(_ & E & _) | (_ & H)];
          [discriminate | eapply Hget, H].
      * intros j H. apply list_lookup_insert_Some in H as [(_ & E & _) | (_ & H)];
          [discriminate | eapply Hsl, H].
      * discriminate.
      * intros H. contradiction.
  - destruct (gs s !! i) as [[| | |]|] eqn:Hi; try discriminate.
    destruct (closed s) eqn:Hc; injection Hstep as <-; cbn [tracked gs closed mainAt].
    + split; [exact Hget|]. split; [exact Hsl|]. split; [intros _; apply Hcl; reflexivity|].
      reflexivity.
    + split; [|split; [|split]].
      * intros j l' H. apply list_lookup_insert_Some in H as [(_ & E & _) | (_ & H)];
          [discriminate | eapply Hget, H].
      * intros j H. apply list_lookup_insert_Some in H as [(_ & E & _) | (_ & H)];
          [discriminate | eapply Hsl, H].
      * intros _. destruct (Hsl i Hi) as (u & Hu & Hok). exists i, u.
        split; [exact Hu|]. split; [exact Hok|].
        apply list_lookup_insert_eq. eapply lookup_lt_Some, Hi.
      * intros H. contradiction.
  - destruct (closed s) eqn:Hc; [|discriminate]. injection Hstep as <-.
    cbn [tracked gs closed mainAt].
    split; [exact Hget|]. split; [exact Hsl|]. split; [intros _; apply Hcl; reflexivity|].
    reflexivity.
Qed.

Lemma tracked_run (sched : list event) (s s' : state) :
  tracked httpGet urls s -> run httpGet sched s = Some s' -> tracked httpGet urls s'.
Proof.
  revert s. induction sched as [|e sched IH]; intros s Hs Hrun; cbn [run] in Hrun.
  - injection Hrun as <-. exact Hs.
  - destruct (step httpGet e s) as [s1|] eqn:E; [|discriminate].
    eapply IH; [eapply tracked_step; eassumption | exact Hrun].
Qed.

(** X21: [main] leaves its loop, and a goroutine panics, only after the
    probe of some link has succeeded and that goroutine has closed
    [c]. *)
Theorem loop_left_only_after_success (sched : list event) (s : state) :
  run httpGet sched (init urls) = Some s ->
  mainAt s <> Ranging ->
  closed s = true
  /\ exists i u, urls !! i = Some u /\ httpGet u = None
                 /\ gs s !! i = Some Returned.
Proof.
  intros Hrun Hm.
  destruct (tracked_run sched (init urls) s tracked_init Hrun) as (_ & _ & Hcl & Hc).
  split; [apply Hc, Hm | apply Hcl, Hc, Hm].
Qed.

Lemma init_lookup (i : nat) (u : string) :
  urls !! i = Some u -> gs (init urls) !! i = Some (Getting u).
Proof.
  intros H. cbn [init gs]. change (map Getting urls) with (Getting <$> urls).
  rewrite list_lookup_fmap, H. reflexivity.
Qed.

(** X22: one answer is enough to end the run: when some link answers,
    [main] can leave its loop with [ia] empty, whatever the other
    probes would have returned. *)
Theorem first_answer_ends_run (i : nat) (u : string) :
  urls !! i = Some u ->
  httpGet u = None ->
  run httpGet [EvGet i; EvClose i; EvRangeEnd] (init urls)
  = Some (mkState (<[i := Returned]> (map Getting urls)) true [] Done).
Proof.
  intros Hu Hok. pose proof (init_lookup i u Hu) as H0.
  assert (Hlt : (i < length (map Getting urls))%nat)
    by (eapply lookup_lt_Some, H0).
  cbn [run]. unfold step at 1. cbn [init mainAt gs closed ia] in *.
  rewrite H0, Hok. unfold step at 1. cbn [mainAt gs closed ia].
  rewrite list_lookup_insert_eq by exact Hlt.
  cbn [step mainAt gs closed ia]. rewrite list_insert_insert_eq. reflexivity.
Qed.

(** X23: a second probe that comes back after the close aborts the
    process: with an answering link [i] and any other link [j] there is
    a run that panics, by a second [close] when [j] answers too and by
    a send on the closed channel when it does not. *)
Theorem late_probe_panics (i j : nat) (u v : string) :
  i <> j ->
  urls !! i = Some u ->
  urls !! j = Some v ->
  httpGet u = None ->
  exists e s,
    run httpGet [EvGet i; EvClose i; EvGet j; e] (init urls) = Some s
    /\ mainAt s = Panicked
    /\ e = match httpGet v with Some _ => EvSend j | None => EvClose j end.
Proof.
  intros Hij Hu Hv Hok. pose proof (init_lookup i u Hu) as Hi0.
  pose proof (init_lookup j v Hv) as Hj0.
  assert (Hlti : (i < length (map Getting urls))%nat)
    by (eapply lookup_lt_Some, Hi0).
  assert (Hltj : (j < length (map Getting urls))%nat)
    by (eapply lookup_lt_Some, Hj0).
  cbn [init gs] in Hi0, Hj0.
  exists (match httpGet v with Some _ => EvSend j | None => EvClose j end),
    (mkState (<[j := match httpGet v with Some _ => Sending v | None => Sleeping end]>
                (<[i := Returned]> (map Getting urls))) true [] Panicked).
  split; [|split; reflexivity].
  cbn [run]. unfold step at 1. cbn [init mainAt gs closed ia].
  rewrite Hi0, Hok. unfold step at 1. cbn [mainAt gs closed ia].
  rewrite list_lookup_insert_eq by exact Hlti.
  unfold step at 1. cbn [mainAt gs closed ia].
  rewrite list_insert_insert_eq, list_lookup_insert_ne, Hj0 by exact Hij.
  destruct (httpGet v); unfold step at 1; cbn [mainAt gs closed ia];
    rewrite list_lookup_insert_eq by (rewrite length_insert; exact Hltj);
    reflexivity.
Qed.

End HealthCheckerMore.

Lemma onlyAUp_down (u : string) : u ∈ [linkB; linkC] -> onlyAUp u <> None.
Proof.
  intros H. apply elem_of_cons in H as [-> | H]; [discriminate|].
  apply list_elem_of_singleton in H as ->. discriminate.
Qed.

Lemma never_done_when_all_fail_witness :
  mainAt (mkState [Returned; Sending linkC] false [linkB] Ranging) = Ranging.
Proof.
  apply (never_done_when_all_fail onlyAUp [linkB; linkC] onlyAUp_down
           [EvGet 0; EvSend 0; EvGet 1]%nat).
  reflexivity.
Defined.

Lemma reported_at_most_once_witness :
  ia (mkState [Returned; Returned; Getting linkC] true [linkB] Done)
  ⊆+ failing onlyAUp [linkA; linkB; linkC].
Proof.
  apply (reported_at_most_once onlyAUp [linkA; linkB; linkC]
           [EvGet 1; EvSend 1; EvGet 0; EvClose 0; EvRangeEnd]%nat).
  reflexivity.
Defined.

Lemma loop_left_only_after_success_witness :
  closed (mkState [Returned; Getting linkB] true [] Done) = true
  /\ exists i u, [linkA; linkB] !! i = Some u /\ onlyAUp u = None
                 /\ gs (mkState [Returned; Getting linkB] true [] Done) !! i
                    = Some Returned.
Proof.
  apply (loop_left_only_after_success onlyAUp [linkA; linkB]
           [EvGet 0; EvClose 0; EvRangeEnd]%nat).
  - reflexivity.
  - discriminate.
Defined.

Lemma first_answer_ends_run_witness :
  run onlyAUp [EvGet 0; EvClose 0; EvRangeEnd]%nat (init [linkA; linkB; linkC])
  = Some (mkState (<[0%nat := Returned]> (map Getting [linkA; linkB; linkC]))
            true [] Done).
Proof.
  apply (first_answer_ends_run onlyAUp [linkA; linkB; linkC] 0%nat linkA).
  - reflexivity.
  - reflexivity.
Defined.

Lemma late_probe_panics_witness :
  exists e s,
    run onlyAUp [EvGet 0; EvClose 0; EvGet 1; e]%nat (init [linkA; linkB]) = Some s
    /\ mainAt s = Panicked
    /\ e = match onlyAUp linkB with Some _ => EvSend 1 | None => EvClose 1 end.
Proof.
  apply (late_probe_panics onlyAUp [linkA; linkB] 0%nat 1%nat linkA linkB).
  - discriminate.
  - reflexivity.
  - reflexivity.
  - reflexivity.
Defined.
